(** * Enc core: profile builders, key provisioning, dispatcher, exporter

    A shallow embedding of [libs/core/src/{generate,encrypt,sign,export}.ts].

    The library is a thin layer over the platform's [crypto.subtle].  Every
    exported function either throws synchronously, or performs exactly one
    call to [crypto.subtle] and returns the promise of that call as it is.
    The embedding therefore represents the behaviour of a function as an
    [Outcome]: the thrown [Error], or the engine call that was made, with
    all its arguments.  An engine is any state transformer answering such
    calls; [run] executes an outcome against an engine and logs the calls.

    Layout: the platform's types, the engine interface, the four source
    files, the execution of outcomes, the vocabulary of the specification
    (module [Spec]), and then the properties. *)

From Stdlib Require Import ZArith List Bool.
From stdpp Require Import gmap strings list fin_maps.

Local Open Scope string_scope.

(** ** Platform types (lib.dom.d.ts) *)

(** [type KeyUsage = "decrypt" | "deriveBits" | "deriveKey" | "encrypt" |
    "sign" | "unwrapKey" | "verify" | "wrapKey"] *)
Module Usage.
Inductive t : Set :=
| decrypt | deriveBits | deriveKey | encrypt
| sign | unwrapKey | verify | wrapKey.

#[global] Instance usage_eq_dec : EqDecision t.
Proof. solve_decision. Defined.
End Usage.

Abbreviation KeyUsage := Usage.t.

(** [type KeyType = "private" | "public" | "secret"] *)
Module KeyType.
Inductive t : Set := private | public | secret.

#[global] Instance key_type_eq_dec : EqDecision t.
Proof. solve_decision. Defined.
End KeyType.

(** [type KeyFormat = "jwk" | "pkcs8" | "raw" | "spki"] *)
Module KeyFormat.
Inductive t : Set := jwk | pkcs8 | raw | spki.

#[global] Instance key_format_eq_dec : EqDecision t.
Proof. solve_decision. Defined.
End KeyFormat.

(** An [ArrayBuffer] is its sequence of bytes, each an 8-bit integer. *)
Abbreviation ArrayBuffer := (list Z).

(** A JavaScript string is its sequence of UTF-16 code units. *)
Abbreviation JSString := (list Z).

(** JavaScript values that occur as properties of algorithm descriptors.
    An object is the finite map of its own enumerable properties. *)
#[local] Unset Elimination Schemes.
Inductive Value : Type :=
| VUndefined
| VString (s : string)
| VNumber (n : Z)
| VBuffer (bytes : ArrayBuffer)
| VObject (properties : gmap string Value).
#[local] Set Elimination Schemes.

Abbreviation Obj := (gmap string Value).

(** [interface KeyAlgorithm { name: string }]; [parameters] holds the
    members its subtypes add (hash, modulusLength, namedCurve, length...). *)
Record KeyAlgorithm : Type := mkKeyAlgorithm {
  name : string;
  parameters : Obj
}.

(** [interface CryptoKey]: the four read-only attributes, and the engine's
    internal reference to the key material. *)
Module CryptoKey.
Record t : Type := mk {
  algorithm : KeyAlgorithm;
  extractable : bool;
  type : KeyType.t;
  usages : list KeyUsage;
  handle : N
}.
End CryptoKey.

Abbreviation CryptoKey := CryptoKey.t.

(** The [algorithm] argument of [generateKey] and [importKey]:
    [RsaHashedKeyGenParams | EcKeyGenParams | AesKeyGenParams |
    HmacKeyGenParams | AlgorithmIdentifier], where an
    [AlgorithmIdentifier] is an [Algorithm] object or a bare name. *)
Inductive KeyGenAlgorithm : Type :=
| RsaHashedKeyGenParams (name : string) (hash : string)
    (modulusLength : Z) (publicExponent : list Z)
| EcKeyGenParams (name : string) (namedCurve : string)
| AesKeyGenParams (name : string) (length : Z)
| HmacKeyGenParams (name : string) (hash : string) (length : option Z)
| Algorithm (name : string)
| AlgorithmName (name : string).

(** Key material handed to [importKey]: a [JsonWebKey] or an
    [ArrayBuffer]. *)
Inductive KeyData : Type :=
| JsonWebKey (jwk : Obj)
| KeyBytes (bytes : ArrayBuffer).

(** [string | ArrayBuffer], the payload of the four operations. *)
Inductive Payload : Type :=
| Text (s : JSString)
| Binary (b : ArrayBuffer).

(** The own enumerable properties of [key.algorithm]. *)
Definition own_properties (a : KeyAlgorithm) : Obj :=
  <["name" := VString (name a)]> (parameters a).

(** [{ ...a, ...options }]: the properties of [a], then those of [options]
    on top; spreading [undefined] (an omitted [options]) adds nothing. *)
Definition spread (a : Obj) (options : option Obj) : Obj :=
  default ∅ options ∪ a.

(** [new TextEncoder().encode(s)]: the UTF-8 encoding of the scalar values
    of [s], a lone surrogate being replaced by U+FFFD (Encoding Standard). *)
Module TextEncoder.

Definition is_lead (u : Z) : bool := (0xD800 <=? u)%Z && (u <=? 0xDBFF)%Z.
Definition is_trail (u : Z) : bool := (0xDC00 <=? u)%Z && (u <=? 0xDFFF)%Z.

Fixpoint scalar_values (s : JSString) : list Z :=
  match s with
  | [] => []
  | u :: rest =>
      if is_lead u then
        match rest with
        | v :: rest' =>
            if is_trail v
            then (0x10000 + Z.lor (Z.shiftl (Z.land u 0x3FF) 10)
                                  (Z.land v 0x3FF))%Z
                 :: scalar_values rest'
            else 0xFFFD%Z :: scalar_values rest
        | [] => [0xFFFD%Z]
        end
      else if is_trail u then 0xFFFD%Z :: scalar_values rest
      else u :: scalar_values rest
  end.

Definition continuation (c : Z) (shift : Z) : Z :=
  Z.lor 0x80 (Z.land (Z.shiftr c shift) 0x3F).

Definition utf8 (c : Z) : list Z :=
  if (c <? 0x80)%Z then [c]
  else if (c <? 0x800)%Z then
    [Z.lor 0xC0 (Z.shiftr c 6); continuation c 0]
  else if (c <? 0x10000)%Z then
    [Z.lor 0xE0 (Z.shiftr c 12); continuation c 6; continuation c 0]
  else
    [Z.lor 0xF0 (Z.shiftr c 18); continuation c 12; continuation c 6;
     continuation c 0].

Definition encode (s : JSString) : ArrayBuffer :=
  flat_map utf8 (scalar_values s).

End TextEncoder.

(** [Array.prototype.includes] on an array of a type with decidable
    equality (strings, usage tags). *)
Definition includes {A} `{EqDecision A} (xs : list A) (x : A) : bool :=
  existsb (fun y => bool_decide (y = x)) xs.

(** [new Error(message)] *)
Record Error : Set := mkError { message : string }.

(** ** The engine: [crypto.subtle] *)

(** One call to a method of [crypto.subtle], with its arguments in the
    order of the method's parameters. *)
Inductive EngineCall : Type :=
| SubtleGenerateKey (algorithm : KeyGenAlgorithm) (extractable : bool)
    (keyUsages : list KeyUsage)
| SubtleImportKey (format : KeyFormat.t) (keyData : KeyData)
    (algorithm : KeyGenAlgorithm) (extractable : bool)
    (keyUsages : list KeyUsage)
| SubtleExportKey (format : KeyFormat.t) (key : CryptoKey)
| SubtleEncrypt (algorithm : Obj) (key : CryptoKey) (data : ArrayBuffer)
| SubtleDecrypt (algorithm : Obj) (key : CryptoKey) (data : ArrayBuffer)
| SubtleSign (algorithm : Obj) (key : CryptoKey) (data : ArrayBuffer)
| SubtleVerify (algorithm : Obj) (key : CryptoKey) (signature : ArrayBuffer)
    (data : ArrayBuffer).

(** What a library function does: it throws synchronously, having called
    nothing, or it makes one engine call and returns that call's promise. *)
Inductive Outcome : Type :=
| Thrown (e : Error)
| Delegated (call : EngineCall).

(** ** generate.ts: profiles *)

Module Generate.

Abbreviation AlgoOptions := KeyGenAlgorithm.

(** The [name] member of the algorithm (the name itself, for a bare
    name). *)
Definition name (a : AlgoOptions) : string :=
  match a with
  | RsaHashedKeyGenParams n _ _ _ => n
  | EcKeyGenParams n _ => n
  | AesKeyGenParams n _ => n
  | HmacKeyGenParams n _ _ => n
  | Algorithm n => n
  | AlgorithmName n => n
  end.

(** [interface KeyGenParams<T>] *)
Record KeyGenParams : Type := mkKeyGenParams {
  algorithm : AlgoOptions;
  extractable : bool;
  keyUsages : list KeyUsage
}.

(** The string-literal unions of the builders' parameters. *)
Inductive Purpose : Set := Signing | Encrypting.

Inductive AesPurpose : Set :=
| Wrapping
| Fixed_length_encryption
| Variable_length_encryption
| Integrity_protection.

Inductive Curve : Set := P_256 | P_384 | P_521.
Inductive Hash : Set := SHA_256 | SHA_384 | SHA_512.
Inductive AesLength : Set := Bits128 | Bits192 | Bits256.

#[global] Instance purpose_eq_dec : EqDecision Purpose.
Proof. solve_decision. Defined.
#[global] Instance aes_purpose_eq_dec : EqDecision AesPurpose.
Proof. solve_decision. Defined.

Definition curve_literal (c : Curve) : string :=
  match c with P_256 => "P-256" | P_384 => "P-384" | P_521 => "P-521" end.

Definition hash_literal (h : Hash) : string :=
  match h with
  | SHA_256 => "SHA-256" | SHA_384 => "SHA-384" | SHA_512 => "SHA-512"
  end.

Definition length_literal (l : AesLength) : Z :=
  match l with Bits128 => 128 | Bits192 => 192 | Bits256 => 256 end.

(** An omitted argument is [None]; the parameter's default applies. *)
Definition ecKey (purpose : Purpose) (curve : option Curve) : KeyGenParams :=
  let curve := default P_256 curve in
  {| algorithm :=
       EcKeyGenParams
         (if bool_decide (purpose = Signing) then "ECDSA" else "ECDH")
         (curve_literal curve);
     extractable := true;
     keyUsages :=
       if bool_decide (purpose = Signing)
       then [Usage.sign; Usage.verify]
       else [Usage.deriveKey; Usage.deriveBits] |}.

Definition rsaKey (purpose : Purpose) (length : option Z)
    (hash : option Hash) : KeyGenParams :=
  let length := default 2048%Z length in
  let hash := default SHA_256 hash in
  {| algorithm :=
       RsaHashedKeyGenParams
         (if bool_decide (purpose = Signing) then "RSA-PSS" else "RSA-OAEP")
         (hash_literal hash)
         length
         [0x01; 0x00; 0x01]%Z;
     extractable := true;
     keyUsages :=
       if bool_decide (purpose = Signing)
       then [Usage.sign; Usage.verify]
       else [Usage.encrypt; Usage.decrypt; Usage.wrapKey; Usage.unwrapKey] |}.

Definition hmacKey (hash : option Hash) (length : option Z) : KeyGenParams :=
  let hash := default SHA_256 hash in
  {| algorithm := HmacKeyGenParams "HMAC" (hash_literal hash) length;
     extractable := true;
     keyUsages := [Usage.sign; Usage.verify] |}.

Definition aesKey (purpose : AesPurpose) (length : option AesLength)
    : KeyGenParams :=
  let length := default Bits256 length in
  {| algorithm :=
       AesKeyGenParams
         (if bool_decide (purpose = Wrapping) then "AES-KW"
          else if bool_decide (purpose = Integrity_protection) then "AES-GCM"
          else if bool_decide (purpose = Fixed_length_encryption)
               then "AES-CBC"
          else "AES-CTR")
         (length_literal length);
     extractable := true;
     keyUsages :=
       if bool_decide (purpose = Wrapping)
       then [Usage.wrapKey; Usage.unwrapKey]
       else [Usage.encrypt; Usage.decrypt] |}.

Definition edKey : KeyGenParams :=
  {| algorithm := Algorithm "Ed25519";
     extractable := true;
     keyUsages := [Usage.sign; Usage.verify] |}.

Definition xKey : KeyGenParams :=
  {| algorithm := Algorithm "X25519";
     extractable := true;
     keyUsages := [Usage.deriveKey; Usage.deriveBits] |}.

(** [extractable !== undefined ? extractable : options.extractable] *)
Definition generateKey (options : KeyGenParams) (extractable : option bool)
    : Outcome :=
  Delegated
    (SubtleGenerateKey
       options.(algorithm)
       (match extractable with
        | Some extractable => extractable
        | None => options.(Generate.extractable)
        end)
       options.(keyUsages)).

End Generate.

(** ** encrypt.ts *)

(** [Omit<RsaOaepParams, "name"> | Omit<AesCtrParams, "name"> | ...]: an
    object of tunable parameters.  At run time it is whatever object the
    caller passes; the declared type has no [name] member. *)
Abbreviation AlgoOptions := Obj.

Definition encrypt (data : Payload) (key : CryptoKey)
    (options : option AlgoOptions) : Outcome :=
  let algorithm := spread (own_properties key.(CryptoKey.algorithm)) options in
  let allowedAlgorithms := ["RSA-OAEP"; "AES-CTR"; "AES-CBC"; "AES-GCM"] in
  if negb (includes allowedAlgorithms key.(CryptoKey.algorithm).(name)) then
    Thrown (mkError "Unsupported algorithm")
  else if negb (includes key.(CryptoKey.usages) Usage.encrypt) then
    Thrown (mkError "Key does not support encryption")
  else
    Delegated
      (SubtleEncrypt algorithm key
         (match data with
          | Binary data => data
          | Text data => TextEncoder.encode data
          end)).

Definition decrypt (data : Payload) (key : CryptoKey)
    (options : option AlgoOptions) : Outcome :=
  let algorithm := spread (own_properties key.(CryptoKey.algorithm)) options in
  let allowedAlgorithms := ["RSA-OAEP"; "AES-CTR"; "AES-CBC"; "AES-GCM"] in
  if negb (includes allowedAlgorithms key.(CryptoKey.algorithm).(name)) then
    Thrown (mkError "Unsupported algorithm")
  else if negb (includes key.(CryptoKey.usages) Usage.decrypt) then
    Thrown (mkError "Key does not support decryption")
  else
    Delegated
      (SubtleDecrypt algorithm key
         (match data with
          | Binary data => data
          | Text data => TextEncoder.encode data
          end)).

(** ** sign.ts *)

Definition sign (data : Payload) (key : CryptoKey)
    (options : option AlgoOptions) : Outcome :=
  let algorithm := spread (own_properties key.(CryptoKey.algorithm)) options in
  let allowedAlgorithms := ["RSA-PSS"; "ECDSA"; "HMAC"; "Ed25519"] in
  if negb (includes allowedAlgorithms key.(CryptoKey.algorithm).(name)) then
    Thrown (mkError "Unsupported algorithm")
  else if negb (includes key.(CryptoKey.usages) Usage.sign) then
    Thrown (mkError "Key does not support signing")
  else
    Delegated
      (SubtleSign algorithm key
         (match data with
          | Binary data => data
          | Text data => TextEncoder.encode data
          end)).

Definition verify (data : Payload) (key : CryptoKey)
    (signature : ArrayBuffer) (options : option AlgoOptions) : Outcome :=
  let algorithm := spread (own_properties key.(CryptoKey.algorithm)) options in
  let allowedAlgorithms := ["RSA-PSS"; "ECDSA"; "HMAC"; "Ed25519"] in
  if negb (includes allowedAlgorithms key.(CryptoKey.algorithm).(name)) then
    Thrown (mkError "Unsupported algorithm")
  else if negb (includes key.(CryptoKey.usages) Usage.verify) then
    Thrown (mkError "Key does not support verifying")
  else
    Delegated
      (SubtleVerify algorithm key signature
         (match data with
          | Binary data => data
          | Text data => TextEncoder.encode data
          end)).

(** ** export.ts *)

Definition exportKey (format : KeyFormat.t) (key : CryptoKey) : Outcome :=
  if negb key.(CryptoKey.extractable) then
    Thrown (mkError "Key does not support exporting")
  else if bool_decide (format = KeyFormat.jwk) then
    Delegated (SubtleExportKey KeyFormat.jwk key)
  else
    Delegated (SubtleExportKey format key).

(** The callback of [options.keyUsages.filter] in [importKey]. *)
Definition keeps (type : KeyType.t) (usage : KeyUsage) : bool :=
  if bool_decide (type = KeyType.public)
     && (bool_decide (usage = Usage.sign)
         || bool_decide (usage = Usage.unwrapKey)
         || bool_decide (usage = Usage.decrypt))
  then false
  else if bool_decide (type = KeyType.private)
          && (bool_decide (usage = Usage.verify)
              || bool_decide (usage = Usage.wrapKey)
              || bool_decide (usage = Usage.encrypt))
  then false
  else true.

Definition importKey (format : KeyFormat.t) (type : KeyType.t) (key : KeyData)
    (options : Generate.KeyGenParams) (extractable : option bool) : Outcome :=
  let keyUsages := List.filter (keeps type) options.(Generate.keyUsages) in
  if bool_decide (format = KeyFormat.jwk) then
    Delegated
      (SubtleImportKey format key options.(Generate.algorithm)
         (match extractable with
          | Some extractable => extractable
          | None => options.(Generate.extractable)
          end)
         keyUsages)
  else
    Delegated
      (SubtleImportKey format key options.(Generate.algorithm)
         (match extractable with
          | Some extractable => extractable
          | None => options.(Generate.extractable)
          end)
         keyUsages).

(** ** Running an outcome against an engine *)

(** What a promise of [crypto.subtle] fulfils with. *)
Inductive EngineValue : Type :=
| KeyValue (key : CryptoKey)
| KeyPairValue (publicKey privateKey : CryptoKey)
| BufferValue (b : ArrayBuffer)
| JwkValue (jwk : Obj)
| BoolValue (b : bool).

(** A settled promise of the engine. *)
Inductive Settled : Type :=
| Fulfilled (v : EngineValue)
| Rejected (reason : string).

(** How a call of a library function ends. *)
Inductive Completion : Type :=
| Threw (e : Error)
| Returned (promise : Settled).

Section Engine.

(** The engine's internal state, and its answer to each call. *)
Context {World : Type}.
Variable subtle : EngineCall → World → Settled * World.

Record Execution : Type := mkExecution {
  completion : Completion;
  world : World;
  calls : list EngineCall
}.

Definition run (o : Outcome) (w : World) : Execution :=
  match o with
  | Thrown e => {| completion := Threw e; world := w; calls := [] |}
  | Delegated call =>
      let '(promise, w') := subtle call w in
      {| completion := Returned promise; world := w'; calls := [call] |}
  end.

End Engine.

(** ** Observing outcomes *)

(** The four operations of the dispatcher, and the function of each. *)
Inductive Operation : Set := Encrypt | Decrypt | Sign | Verify.

Definition dispatch (op : Operation) (data : Payload) (key : CryptoKey)
    (signature : ArrayBuffer) (options : option AlgoOptions) : Outcome :=
  match op with
  | Encrypt => encrypt data key options
  | Decrypt => decrypt data key options
  | Sign => sign data key options
  | Verify => verify data key signature options
  end.

(** The arguments an outcome hands to the engine, if it calls it. *)
Definition handed_algorithm (o : Outcome) : option Obj :=
  match o with
  | Delegated (SubtleEncrypt a _ _) | Delegated (SubtleDecrypt a _ _)
  | Delegated (SubtleSign a _ _) | Delegated (SubtleVerify a _ _ _) => Some a
  | _ => None
  end.

Definition handed_payload (o : Outcome) : option ArrayBuffer :=
  match o with
  | Delegated (SubtleEncrypt _ _ d) | Delegated (SubtleDecrypt _ _ d)
  | Delegated (SubtleSign _ _ d) | Delegated (SubtleVerify _ _ _ d) => Some d
  | _ => None
  end.

Definition handed_usages (o : Outcome) : option (list KeyUsage) :=
  match o with
  | Delegated (SubtleGenerateKey _ _ us) => Some us
  | Delegated (SubtleImportKey _ _ _ _ us) => Some us
  | _ => None
  end.

(** The [name] property of an algorithm descriptor object. *)
Definition descriptor_name (a : Obj) : option Value := a !! "name".

(** The options object has no [name] property.  The declared type lists
    none, but an object type is open: a value of it may carry one. *)
Definition omits_name (options : option AlgoOptions) : bool :=
  match options with
  | None => true
  | Some o => match o !! "name" with None => true | Some _ => false end
  end.

(** ** The specification's vocabulary *)

(** These definitions follow the words of the specification, not the code;
    the properties below compare the code with them. *)
Module Spec.

(** The allow-list of each operation. *)
Definition allow_list (op : Operation) : list string :=
  match op with
  | Encrypt | Decrypt => ["RSA-OAEP"; "AES-CTR"; "AES-CBC"; "AES-GCM"]
  | Sign | Verify => ["RSA-PSS"; "ECDSA"; "HMAC"; "Ed25519"]
  end.

(** The usage tag each operation requires. *)
Definition required_usage (op : Operation) : KeyUsage :=
  match op with
  | Encrypt => Usage.encrypt
  | Decrypt => Usage.decrypt
  | Sign => Usage.sign
  | Verify => Usage.verify
  end.

(** The error kinds, each as the error the code throws for it. *)
Definition UnsupportedAlgorithm : Error := mkError "Unsupported algorithm".

Definition UsageDenied (op : Operation) : Error :=
  match op with
  | Encrypt => mkError "Key does not support encryption"
  | Decrypt => mkError "Key does not support decryption"
  | Sign => mkError "Key does not support signing"
  | Verify => mkError "Key does not support verifying"
  end.

Definition NotExtractable : Error := mkError "Key does not support exporting".

(** Validation of a key for an operation: name allowed, usage present. *)
Definition valid_for (op : Operation) (key : CryptoKey) : bool :=
  includes (allow_list op) key.(CryptoKey.algorithm).(name)
  && includes key.(CryptoKey.usages) (required_usage op).

(** Payload normalization: text becomes its binary encoding, binary
    passes. *)
Definition normalize (data : Payload) : ArrayBuffer :=
  match data with
  | Text s => TextEncoder.encode s
  | Binary b => b
  end.

(** The engine method an operation delegates to. *)
Definition engine_method (op : Operation) (algorithm : Obj) (key : CryptoKey)
    (signature data : ArrayBuffer) : EngineCall :=
  match op with
  | Encrypt => SubtleEncrypt algorithm key data
  | Decrypt => SubtleDecrypt algorithm key data
  | Sign => SubtleSign algorithm key data
  | Verify => SubtleVerify algorithm key signature data
  end.

(** The shared validation protocol: reject a name outside the allow-list,
    then reject a missing usage tag, then hand the merged descriptor and
    the normalized payload to the engine. *)
Definition protocol (op : Operation) (data : Payload) (key : CryptoKey)
    (signature : ArrayBuffer) (options : option AlgoOptions) : Outcome :=
  if includes (allow_list op) key.(CryptoKey.algorithm).(name) then
    if includes key.(CryptoKey.usages) (required_usage op) then
      Delegated
        (engine_method op
           (spread (own_properties key.(CryptoKey.algorithm)) options)
           key signature (normalize data))
    else Thrown (UsageDenied op)
  else Thrown UnsupportedAlgorithm.

(** A profile shows the algorithm name and the usage list of a row of the
    purpose table, and is extractable. *)
Definition matches_row (p : Generate.KeyGenParams) (algorithm_name : string)
    (usage_list : list KeyUsage) : Prop :=
  Generate.name p.(Generate.algorithm) = algorithm_name
  ∧ p.(Generate.keyUsages) = usage_list
  ∧ p.(Generate.extractable) = true.

(** The role partition of the usage tags. *)
Definition private_only : list KeyUsage :=
  [Usage.sign; Usage.unwrapKey; Usage.decrypt].

Definition public_only : list KeyUsage :=
  [Usage.verify; Usage.wrapKey; Usage.encrypt].

Definition shared : list KeyUsage := [Usage.deriveKey; Usage.deriveBits].

End Spec.

(** ** Sample keys and a sample engine *)

Definition aes_gcm_key (usages : list KeyUsage) : CryptoKey :=
  CryptoKey.mk (mkKeyAlgorithm "AES-GCM" {["length" := VNumber 256]})
    true KeyType.secret usages 1.

Definition rsa_pss_private_key : CryptoKey :=
  CryptoKey.mk
    (mkKeyAlgorithm "RSA-PSS"
       (<["hash" := VObject {["name" := VString "SHA-256"]}]>
          (<["modulusLength" := VNumber 2048]>
             {["publicExponent" := VBuffer [1; 0; 1]%Z]})))
    true KeyType.private [Usage.sign] 2.

(** An engine that rejects every call and counts the calls it received. *)
Definition rejecting_engine (call : EngineCall) (received : nat)
    : Settled * nat :=
  (Rejected "OperationError", S received).

(** ["Hello World!"] *)
Definition hello_world : JSString :=
  [72; 101; 108; 108; 111; 32; 87; 111; 114; 108; 100; 33]%Z.

(** ** Builder calls, and further observers *)

(** A call of one of the six profile builders, with its arguments. *)
Inductive BuilderCall : Type :=
| EcKey (purpose : Generate.Purpose) (curve : option Generate.Curve)
| RsaKey (purpose : Generate.Purpose) (length : option Z)
    (hash : option Generate.Hash)
| HmacKey (hash : option Generate.Hash) (length : option Z)
| AesKey (purpose : Generate.AesPurpose) (length : option Generate.AesLength)
| EdKey
| XKey.

Definition build (b : BuilderCall) : Generate.KeyGenParams :=
  match b with
  | EcKey purpose curve => Generate.ecKey purpose curve
  | RsaKey purpose length hash => Generate.rsaKey purpose length hash
  | HmacKey hash length => Generate.hmacKey hash length
  | AesKey purpose length => Generate.aesKey purpose length
  | EdKey => Generate.edKey
  | XKey => Generate.xKey
  end.


(** The extractability flag an outcome hands to the engine, if it creates
    a key. *)
Definition handed_extractable (o : Outcome) : option bool :=
  match o with
  | Delegated (SubtleGenerateKey _ e _) => Some e
  | Delegated (SubtleImportKey _ _ _ e _) => Some e
  | _ => None
  end.







#[global] Instance operation_eq_dec : EqDecision Operation.
Proof. solve_decision. Defined.

(** ** UTF-8, read from its definition *)

(** These definitions do not come from the code: they are the reading
    side of UTF-8 (RFC 3629) and the code points a JavaScript string
    denotes, written with plain arithmetic, against which the encoder the
    code calls is checked. *)
Module Utf8.

Definition continuation (b : Z) : bool := (0x80 <=? b)%Z && (b <? 0xC0)%Z.

Definition surrogate (c : Z) : bool := (0xD800 <=? c)%Z && (c <? 0xE000)%Z.

Definition high_surrogate (u : Z) : bool :=
  (0xD800 <=? u)%Z && (u <? 0xDC00)%Z.

Definition low_surrogate (u : Z) : bool :=
  (0xDC00 <=? u)%Z && (u <? 0xE000)%Z.

(** A scalar value: a code point that is not a surrogate. *)
Definition scalar (c : Z) : bool :=
  (0 <=? c)%Z && (c <? 0x110000)%Z && negb (surrogate c).

(** The code points of a string: a high surrogate followed by a low one
    denotes one supplementary code point; any other surrogate is read as
    U+FFFD; any other code unit is its own code point. *)
Fixpoint code_points (s : JSString) : list Z :=
  match s with
  | [] => []
  | u :: rest =>
      match rest with
      | v :: rest' =>
          if high_surrogate u && low_surrogate v
          then (0x10000 + (u - 0xD800) * 0x400 + (v - 0xDC00))%Z
               :: code_points rest'
          else (if surrogate u then 0xFFFD%Z else u) :: code_points rest
      | [] => [if surrogate u then 0xFFFD%Z else u]
      end
  end.

(** The decoder: one to four bytes per code point, by the lead byte;
    overlong forms, surrogates, values above U+10FFFF, stray continuation
    bytes and truncated sequences are refused. *)
Fixpoint decode (bytes : list Z) : option (list Z) :=
  match bytes with
  | [] => Some []
  | b0 :: r0 =>
      if (0 <=? b0)%Z && (b0 <? 0x80)%Z then cons b0 <$> decode r0
      else
        match r0 with
        | [] => None
        | b1 :: r1 =>
            if (0xC0 <=? b0)%Z && (b0 <? 0xE0)%Z then
              let c := ((b0 - 0xC0) * 64 + (b1 - 0x80))%Z in
              if continuation b1 && (0x80 <=? c)%Z
              then cons c <$> decode r1
              else None
            else
              match r1 with
              | [] => None
              | b2 :: r2 =>
                  if (0xE0 <=? b0)%Z && (b0 <? 0xF0)%Z then
                    let c := ((b0 - 0xE0) * 4096 + (b1 - 0x80) * 64
                              + (b2 - 0x80))%Z in
                    if continuation b1 && continuation b2
                       && (0x800 <=? c)%Z && negb (surrogate c)
                    then cons c <$> decode r2
                    else None
                  else
                    match r2 with
                    | [] => None
                    | b3 :: r3 =>
                        if (0xF0 <=? b0)%Z && (b0 <? 0xF8)%Z then
                          let c := ((b0 - 0xF0) * 262144
                                    + (b1 - 0x80) * 4096
                                    + (b2 - 0x80) * 64 + (b3 - 0x80))%Z in
                          if continuation b1 && continuation b2
                             && continuation b3
                             && (0x10000 <=? c)%Z && (c <? 0x110000)%Z
                          then cons c <$> decode r3
                          else None
                        else None
                    end
              end
        end
  end.

End Utf8.

(** The string whose characters are U+00E9, U+20AC and U+1F600 (the last
    as a surrogate pair). *)
Definition beyond_ascii : JSString := [0xE9; 0x20AC; 0xD83D; 0xDE00]%Z.

(** * Properties *)

(** ** Auxiliary facts *)

Lemma includes_true {A} `{EqDecision A} (xs : list A) (x : A) :
  includes xs x = true ↔ x ∈ xs.
Proof.
  unfold includes. rewrite existsb_exists. split.
  - intros (y & Hin & Heq).
    apply bool_decide_eq_true in Heq. subst y.
    by apply list_elem_of_In.
  - intros Hin. exists x. split.
    + by apply list_elem_of_In.
    + by apply bool_decide_eq_true.
Qed.

Lemma includes_false {A} `{EqDecision A} (xs : list A) (x : A) :
  includes xs x = false ↔ x ∉ xs.
Proof.
  rewrite <- includes_true. destruct (includes xs x); split; done.
Qed.

(** The four functions are the one protocol, instantiated. *)
Lemma dispatch_protocol op data key signature options :
  dispatch op data key signature options
  = Spec.protocol op data key signature options.
Proof.
  unfold Spec.protocol.
  destruct op; cbn [dispatch Spec.allow_list Spec.required_usage];
    [unfold encrypt | unfold decrypt | unfold sign | unfold verify];
    destruct (includes _ (name _)); cbn [negb]; try reflexivity;
    destruct (includes (CryptoKey.usages key) _); cbn [negb];
    try reflexivity; destruct data; reflexivity.
Qed.

(** Replace a call of one of the four functions by the protocol's
    decision tree. *)
Ltac by_protocol := rewrite dispatch_protocol; unfold Spec.protocol.

Lemma usage_denied_not_unsupported op :
  Spec.UsageDenied op ≠ Spec.UnsupportedAlgorithm.
Proof. destruct op; discriminate. Qed.

(** ** Profile builder *)

(** C1. Every builder returns, for each purpose and each choice of the
    tunables (omitted or given), a profile whose algorithm name and usage
    list are those of its row of the purpose table, with [extractable]
    set. *)
Theorem profile_consistency :
  (∀ curve, Spec.matches_row (Generate.ecKey Generate.Signing curve)
              "ECDSA" [Usage.sign; Usage.verify])
  ∧ (∀ curve, Spec.matches_row (Generate.ecKey Generate.Encrypting curve)
                "ECDH" [Usage.deriveKey; Usage.deriveBits])
  ∧ (∀ length hash,
       Spec.matches_row (Generate.rsaKey Generate.Signing length hash)
         "RSA-PSS" [Usage.sign; Usage.verify])
  ∧ (∀ length hash,
       Spec.matches_row (Generate.rsaKey Generate.Encrypting length hash)
         "RSA-OAEP"
         [Usage.encrypt; Usage.decrypt; Usage.wrapKey; Usage.unwrapKey])
  ∧ (∀ length, Spec.matches_row (Generate.aesKey Generate.Wrapping length)
                 "AES-KW" [Usage.wrapKey; Usage.unwrapKey])
  ∧ (∀ length,
       Spec.matches_row
         (Generate.aesKey Generate.Integrity_protection length)
         "AES-GCM" [Usage.encrypt; Usage.decrypt])
  ∧ (∀ length,
       Spec.matches_row
         (Generate.aesKey Generate.Fixed_length_encryption length)
         "AES-CBC" [Usage.encrypt; Usage.decrypt])
  ∧ (∀ length,
       Spec.matches_row
         (Generate.aesKey Generate.Variable_length_encryption length)
         "AES-CTR" [Usage.encrypt; Usage.decrypt])
  ∧ (∀ hash length, Spec.matches_row (Generate.hmacKey hash length)
                      "HMAC" [Usage.sign; Usage.verify])
  ∧ Spec.matches_row Generate.edKey "Ed25519" [Usage.sign; Usage.verify]
  ∧ Spec.matches_row Generate.xKey "X25519"
      [Usage.deriveKey; Usage.deriveBits].
Proof.
  unfold Spec.matches_row. repeat split.
Qed.

(** ** Operation dispatcher *)

(** C2. Each of the four operations throws the unsupported-algorithm error
    exactly when the key's own algorithm name is outside the operation's
    allow-list, whatever the payload, the usages and the options; so
    [encrypt] with an HMAC key or with an AES-KW key always throws it. *)
Theorem unsupported_algorithm_iff :
  (∀ op data key signature options,
     dispatch op data key signature options
     = Thrown Spec.UnsupportedAlgorithm
     ↔ key.(CryptoKey.algorithm).(name) ∉ Spec.allow_list op)
  ∧ (∀ data parameters extractable type usages handle options,
       encrypt data
         (CryptoKey.mk (mkKeyAlgorithm "HMAC" parameters)
            extractable type usages handle)
         options
       = Thrown Spec.UnsupportedAlgorithm)
  ∧ (∀ data parameters extractable type usages handle options,
       encrypt data
         (CryptoKey.mk (mkKeyAlgorithm "AES-KW" parameters)
            extractable type usages handle)
         options
       = Thrown Spec.UnsupportedAlgorithm).
Proof.
  split; [| split; reflexivity].
  intros op data key signature options.
  by_protocol.
  rewrite <- includes_false.
  destruct (includes (Spec.allow_list op) _); [| done].
  split; [| done].
  destruct (includes (CryptoKey.usages key) _); [done |].
  intros [= H]. by apply usage_denied_not_unsupported in H.
Qed.

(** C3. Each operation throws its usage error exactly when the key's
    algorithm name is in the allow-list and the operation's own usage tag
    is absent from the usages bound to the key; the options play no part,
    and a key failing both checks gets the unsupported-algorithm error,
    the name being checked first. *)
Theorem usage_denied_iff :
  (∀ op data key signature options,
     dispatch op data key signature options = Thrown (Spec.UsageDenied op)
     ↔ key.(CryptoKey.algorithm).(name) ∈ Spec.allow_list op
       ∧ Spec.required_usage op ∉ key.(CryptoKey.usages))
  ∧ (∀ op data key signature options,
       key.(CryptoKey.algorithm).(name) ∉ Spec.allow_list op →
       Spec.required_usage op ∉ key.(CryptoKey.usages) →
       dispatch op data key signature options
       = Thrown Spec.UnsupportedAlgorithm).
Proof.
  split; intros op data key signature options.
  - by_protocol.
    rewrite <- includes_true, <- includes_false.
    destruct (includes (Spec.allow_list op) _).
    + destruct (includes (CryptoKey.usages key) _).
      * split; [done | intros [_ ?]; done].
      * done.
    + split; [| intros [? _]; done].
      intros [= H]. symmetry in H.
      by apply usage_denied_not_unsupported in H.
  - intros Hname _. by_protocol.
    apply includes_false in Hname. by rewrite Hname.
Qed.

(** Validation fails by the name or by the usage tag. *)
Lemma valid_for_false op key :
  Spec.valid_for op key = false
  ↔ key.(CryptoKey.algorithm).(name) ∉ Spec.allow_list op
    ∨ Spec.required_usage op ∉ key.(CryptoKey.usages).
Proof.
  unfold Spec.valid_for.
  rewrite andb_false_iff, !includes_false. done.
Qed.

(** A key that passes validation reaches the engine method of the
    operation, once, with the merged descriptor and the normalized
    payload. *)
Lemma valid_dispatch op data key signature options :
  Spec.valid_for op key = true →
  dispatch op data key signature options
  = Delegated
      (Spec.engine_method op
         (spread (own_properties key.(CryptoKey.algorithm)) options)
         key signature (Spec.normalize data)).
Proof.
  unfold Spec.valid_for. intros [Hname Husage]%andb_true_iff.
  by_protocol. by rewrite Hname, Husage.
Qed.

(** A key that fails validation makes the operation throw. *)
Lemma invalid_dispatch op data key signature options :
  Spec.valid_for op key = false →
  dispatch op data key signature options
  = Thrown
      (if includes (Spec.allow_list op) key.(CryptoKey.algorithm).(name)
       then Spec.UsageDenied op
       else Spec.UnsupportedAlgorithm).
Proof.
  unfold Spec.valid_for. by_protocol.
  destruct (includes (Spec.allow_list op) _); cbn [andb]; [| done].
  by intros ->.
Qed.

(** C6. When validation fails, by the name or by the usage tag, the
    operation throws the matching error, and under every engine, from every
    engine state, no call reaches the engine and its state is untouched. *)
Theorem validation_precedes_engine {World : Type}
    (subtle : EngineCall → World → Settled * World) (w : World)
    op data key signature options :
  Spec.valid_for op key = false →
  ∃ e,
    (e = Spec.UnsupportedAlgorithm ∨ e = Spec.UsageDenied op)
    ∧ dispatch op data key signature options = Thrown e
    ∧ run subtle (dispatch op data key signature options) w
      = {| completion := Threw e; world := w; calls := [] |}.
Proof.
  intros Hinvalid.
  rewrite (invalid_dispatch _ _ _ _ _ Hinvalid).
  eexists. split; [| split; reflexivity].
  destruct (includes (Spec.allow_list op) _); auto.
Qed.

Lemma validation_precedes_engine_witness :
  Spec.valid_for Encrypt (aes_gcm_key [Usage.decrypt]) = false
  ∧ ∃ e,
      (e = Spec.UnsupportedAlgorithm ∨ e = Spec.UsageDenied Encrypt)
      ∧ dispatch Encrypt (Text hello_world) (aes_gcm_key [Usage.decrypt])
          [] None
        = Thrown e
      ∧ run rejecting_engine
          (dispatch Encrypt (Text hello_world) (aes_gcm_key [Usage.decrypt])
             [] None)
          0
        = {| completion := Threw e; world := 0; calls := [] |}.
Proof.
  split; [reflexivity |].
  apply (validation_precedes_engine rejecting_engine 0 Encrypt
           (Text hello_world) (aes_gcm_key [Usage.decrypt]) [] None).
  reflexivity.
Defined.

(** Conversely, a key that passes validation reaches the engine: one call
    is made, and the engine's promise is what the operation returns. *)
Lemma valid_dispatch_runs_engine {World : Type}
    (subtle : EngineCall → World → Settled * World) (w : World)
    op data key signature options :
  Spec.valid_for op key = true →
  let call :=
    Spec.engine_method op
      (spread (own_properties key.(CryptoKey.algorithm)) options)
      key signature (Spec.normalize data) in
  run subtle (dispatch op data key signature options) w
  = {| completion := Returned (subtle call w).1;
       world := (subtle call w).2;
       calls := [call] |}.
Proof.
  intros Hvalid call. rewrite (valid_dispatch _ _ _ _ _ Hvalid).
  fold call. unfold run. by destruct (subtle call w).
Qed.

(** Merging options that have no [name] member keeps the key's name. *)
Lemma spread_keeps_name (a : KeyAlgorithm) options :
  omits_name options = true →
  descriptor_name (spread (own_properties a) options)
  = Some (VString a.(name)).
Proof.
  unfold omits_name, descriptor_name, spread, own_properties.
  destruct options as [o |]; cbn [default].
  - destruct (o !! "name") eqn:Ho; [done |]. intros _.
    rewrite lookup_union_r by done. apply lookup_insert_eq.
  - intros _. rewrite (left_id_L ∅ (∪)). apply lookup_insert_eq.
Qed.

(** An options object that does carry a [name] property replaces the
    name in the merged descriptor; validation still reads the key's own
    name. *)
Lemma spread_takes_name_of_options (a : KeyAlgorithm) (o : Obj) (v : Value) :
  o !! "name" = Some v →
  descriptor_name (spread (own_properties a) (Some o)) = Some v.
Proof.
  intros Ho. unfold descriptor_name, spread. cbn [default].
  by apply lookup_union_Some_l.
Qed.

(** C9, as stated, fails: the options are spread after the key's
    descriptor with no guard, so for an AES-GCM key that passes validation
    and options carrying [name: "AES-CBC"], the engine receives the name
    AES-CBC, not the key's. *)
Lemma merge_changes_name_counterexample :
  Spec.valid_for Encrypt (aes_gcm_key [Usage.encrypt]) = true
  ∧ ∃ a,
      handed_algorithm
        (dispatch Encrypt (Text hello_world) (aes_gcm_key [Usage.encrypt])
           [] (Some {["name" := VString "AES-CBC"]}))
      = Some a
      ∧ descriptor_name a = Some (VString "AES-CBC")
      ∧ descriptor_name a
        ≠ Some
            (VString
               (aes_gcm_key [Usage.encrypt]).(CryptoKey.algorithm).(name)).
Proof.
  split; [reflexivity |]. eexists.
  split; [reflexivity |]. split; [reflexivity | discriminate].
Qed.

(** C9, amended. For options that carry no [name] property, the merged
    descriptor of each operation has the key's own algorithm name: every
    descriptor handed to the engine carries it, and a key that passes
    validation does hand the merged descriptor to the engine. *)
Theorem merge_preserves_name op data key signature options :
  omits_name options = true →
  (∀ a, handed_algorithm (dispatch op data key signature options) = Some a →
        descriptor_name a = Some (VString key.(CryptoKey.algorithm).(name)))
  ∧ (Spec.valid_for op key = true →
     ∃ a, handed_algorithm (dispatch op data key signature options) = Some a
          ∧ descriptor_name a
            = Some (VString key.(CryptoKey.algorithm).(name))).
Proof.
  intros Homits.
  pose proof (spread_keeps_name key.(CryptoKey.algorithm) options Homits)
    as Hname.
  split.
  - intros a. by_protocol.
    destruct (includes (Spec.allow_list op) _); [| done].
    destruct (includes (CryptoKey.usages key) _); [| done].
    destruct op; intros [= <-]; exact Hname.
  - intros Hvalid. rewrite (valid_dispatch _ _ _ _ _ Hvalid).
    eexists. split; [by destruct op | exact Hname].
Qed.

Lemma merge_preserves_name_witness :
  omits_name (Some {["saltLength" := VNumber 32]}) = true
  ∧ Spec.valid_for Sign rsa_pss_private_key = true
  ∧ ∃ a,
      handed_algorithm
        (dispatch Sign (Text hello_world) rsa_pss_private_key []
           (Some {["saltLength" := VNumber 32]}))
      = Some a
      ∧ descriptor_name a = Some (VString "RSA-PSS").
Proof.
  split; [reflexivity |]. split; [reflexivity |].
  apply (merge_preserves_name Sign (Text hello_world) rsa_pss_private_key []
           (Some {["saltLength" := VNumber 32]}));
    reflexivity.
Defined.

(** ** Key provisioner *)

(** C7. [generateKey] called with a profile alone hands the profile's
    algorithm, extractability flag and usage list to the engine as they
    are; it never throws, with or without an override; and its result is
    the engine's own promise, so a rejection reaches the caller as the
    engine made it. *)
Theorem generateKey_delegates_verbatim :
  ∀ options,
    let call :=
      SubtleGenerateKey options.(Generate.algorithm)
        options.(Generate.extractable) options.(Generate.keyUsages) in
    Generate.generateKey options None = Delegated call
    ∧ (∀ extractable,
         ∃ c, Generate.generateKey options extractable = Delegated c)
    ∧ (∀ World (subtle : EngineCall → World → Settled * World) (w : World),
         run subtle (Generate.generateKey options None) w
         = {| completion := Returned (subtle call w).1;
              world := (subtle call w).2;
              calls := [call] |}).
Proof.
  intros options call. split; [reflexivity |]. split.
  - intros extractable. eexists. reflexivity.
  - intros World subtle w. unfold Generate.generateKey, run. fold call.
    by destruct (subtle call w).
Qed.

(** The override of [generateKey], when given, replaces the profile's
    flag. *)
Lemma generateKey_override options extractable :
  Generate.generateKey options (Some extractable)
  = Delegated
      (SubtleGenerateKey options.(Generate.algorithm) extractable
         options.(Generate.keyUsages)).
Proof. reflexivity. Qed.

Lemma keeps_public usage :
  keeps KeyType.public usage = negb (includes Spec.private_only usage).
Proof. by destruct usage. Qed.

Lemma keeps_private usage :
  keeps KeyType.private usage = negb (includes Spec.public_only usage).
Proof. by destruct usage. Qed.

Lemma keeps_secret usage : keeps KeyType.secret usage = true.
Proof. reflexivity. Qed.

(** [importKey] never throws: it calls the engine with the filtered usage
    list, the profile's algorithm, and the override or the profile's
    flag. *)
Lemma importKey_call format type key options extractable :
  importKey format type key options extractable
  = Delegated
      (SubtleImportKey format key options.(Generate.algorithm)
         (default options.(Generate.extractable) extractable)
         (List.filter (keeps type) options.(Generate.keyUsages))).
Proof.
  unfold importKey. destruct extractable; by case_bool_decide.
Qed.

(** C4. [importKey] hands the engine the profile's usage list filtered by
    role: a public import drops exactly sign, unwrapKey and decrypt, a
    private import drops exactly verify, wrapKey and encrypt, each keeping
    the rest in order; deriveKey and deriveBits pass under every role; no
    role and no usage list makes it throw.  A profile requesting sign,
    verify, encrypt gives verify, encrypt when public and sign when
    private. *)
Theorem importKey_filters_by_role :
  ∀ format key options extractable,
    handed_usages
      (importKey format KeyType.public key options extractable)
    = Some (List.filter (λ u, negb (includes Spec.private_only u))
              options.(Generate.keyUsages))
    ∧ handed_usages
        (importKey format KeyType.private key options extractable)
      = Some (List.filter (λ u, negb (includes Spec.public_only u))
                options.(Generate.keyUsages))
    ∧ (∀ type u, u ∈ Spec.shared → keeps type u = true)
    ∧ (∀ type, ∃ call,
         importKey format type key options extractable = Delegated call)
    ∧ (∀ algorithm flag,
         let requested :=
           Generate.mkKeyGenParams algorithm flag
             [Usage.sign; Usage.verify; Usage.encrypt] in
         handed_usages
           (importKey format KeyType.public key requested extractable)
         = Some [Usage.verify; Usage.encrypt]
         ∧ handed_usages
             (importKey format KeyType.private key requested extractable)
           = Some [Usage.sign]).
Proof.
  intros format key options extractable.
  repeat split.
  - rewrite importKey_call. cbn [handed_usages]. f_equal.
    apply List.filter_ext. exact keeps_public.
  - rewrite importKey_call. cbn [handed_usages]. f_equal.
    apply List.filter_ext. exact keeps_private.
  - intros type u Hu. unfold Spec.shared in Hu.
    apply elem_of_cons in Hu as [-> | Hu]; [by destruct type |].
    apply elem_of_cons in Hu as [-> | Hu]; [by destruct type |].
    by apply elem_of_nil in Hu.
  - intros type. rewrite importKey_call. eexists. reflexivity.
  - by rewrite importKey_call.
  - by rewrite importKey_call.
Qed.

(** C10. [importKey] takes the role [secret] besides [public] and
    [private], and then filters nothing: the engine receives the
    profile's usage list as it is, sign and decrypt together included. *)
Theorem importKey_secret_keeps_all :
  (∀ format key options extractable,
     importKey format KeyType.secret key options extractable
     = Delegated
         (SubtleImportKey format key options.(Generate.algorithm)
            (default options.(Generate.extractable) extractable)
            options.(Generate.keyUsages)))
  ∧ (∀ format key algorithm flag extractable,
       handed_usages
         (importKey format KeyType.secret key
            (Generate.mkKeyGenParams algorithm flag
               [Usage.sign; Usage.decrypt; Usage.verify; Usage.encrypt])
            extractable)
       = Some [Usage.sign; Usage.decrypt; Usage.verify; Usage.encrypt]).
Proof.
  split.
  - intros format key options extractable. rewrite importKey_call.
    do 2 f_equal. induction (Generate.keyUsages options) as [| u us IH].
    + reflexivity.
    + cbn [List.filter]. rewrite keeps_secret. by rewrite IH.
  - intros. by rewrite importKey_call.
Qed.

(** ** Key exporter *)

(** C5. For a key that is not extractable, [exportKey] throws the
    not-extractable error in every format, and under every engine no call
    reaches the engine; for an extractable key it throws nothing and hands
    the format and the key to the engine's export. *)
Theorem extractability_gate :
  (∀ format algorithm type usages handle,
     let key := CryptoKey.mk algorithm false type usages handle in
     exportKey format key = Thrown Spec.NotExtractable
     ∧ ∀ World (subtle : EngineCall → World → Settled * World) (w : World),
         run subtle (exportKey format key) w
         = {| completion := Threw Spec.NotExtractable; world := w; calls := [] |})
  ∧ (∀ format algorithm type usages handle,
       let key := CryptoKey.mk algorithm true type usages handle in
       exportKey format key = Delegated (SubtleExportKey format key)
       ∧ ∀ World (subtle : EngineCall → World → Settled * World) (w : World),
           calls (run subtle (exportKey format key) w)
           = [SubtleExportKey format key]).
Proof.
  split; intros format algorithm type usages handle key.
  - split; reflexivity.
  - assert (exportKey format key = Delegated (SubtleExportKey format key))
      as -> by (by destruct format).
    split; [reflexivity |].
    intros World subtle w. unfold run.
    by destruct (subtle _ w).
Qed.

(** ** The text encoder *)

Example encode_hello_world : TextEncoder.encode hello_world = hello_world.
Proof. reflexivity. Qed.

(** U+00E9, U+20AC, the pair for U+1F600, then a lone lead surrogate, a
    letter, and a lone trail surrogate. *)
Example encode_beyond_ascii :
  TextEncoder.encode
    [0xE9; 0x20AC; 0xD83D; 0xDE00; 0xD83D; 0x41; 0xDE00]%Z
  = [0xC3; 0xA9; 0xE2; 0x82; 0xAC; 0xF0; 0x9F; 0x98; 0x80;
     0xEF; 0xBF; 0xBD; 0x41; 0xEF; 0xBF; 0xBD]%Z.
Proof. reflexivity. Qed.

Lemma scalar_values_ascii (s : JSString) :
  Forall (λ u, 0 ≤ u < 0x80)%Z s → TextEncoder.scalar_values s = s.
Proof.
  induction 1 as [| u s Hu _ IH]; [reflexivity |].
  cbn [TextEncoder.scalar_values].
  unfold TextEncoder.is_lead, TextEncoder.is_trail.
  destruct (Z.leb_spec 0xD800 u); [lia |].
  destruct (Z.leb_spec 0xDC00 u); [lia |].
  cbn [andb]. by rewrite IH.
Qed.

(** A string of ASCII characters is encoded as its own code units. *)
Lemma encode_ascii (s : JSString) :
  Forall (λ u, 0 ≤ u < 0x80)%Z s → TextEncoder.encode s = s.
Proof.
  intros Hs. unfold TextEncoder.encode. rewrite scalar_values_ascii by done.
  induction Hs as [| u s Hu _ IH]; [reflexivity |].
  cbn [flat_map]. rewrite IH. unfold TextEncoder.utf8.
  by destruct (Z.ltb_spec u 0x80); [| lia].
Qed.

Local Open Scope Z_scope.

Lemma lor_below (n a b : Z) :
  0 ≤ n → 0 ≤ a < 2 ^ n → 0 ≤ b < 2 ^ n → 0 ≤ Z.lor a b < 2 ^ n.
Proof.
  intros Hn Ha Hb.
  assert (0 ≤ Z.lor a b) as Hlor by (apply Z.lor_nonneg; lia).
  split; [done |].
  destruct (Z.eq_dec (Z.lor a b) 0) as [-> | Hne]; [lia |].
  apply Z.log2_lt_pow2; [lia |].
  rewrite Z.log2_lor by lia.
  destruct (Z.eq_dec a 0) as [-> | Ha0], (Z.eq_dec b 0) as [-> | Hb0].
  - done.
  - rewrite Z.max_r by (apply Z.log2_nonneg).
    apply Z.log2_lt_pow2; lia.
  - rewrite Z.max_l by (apply Z.log2_nonneg).
    apply Z.log2_lt_pow2; lia.
  - apply Z.max_lub_lt; apply Z.log2_lt_pow2; lia.
Qed.

Lemma land_below (a n mask : Z) :
  0 ≤ n → mask = 2 ^ n - 1 → 0 ≤ Z.land a mask < 2 ^ n.
Proof.
  intros Hn ->.
  replace (2 ^ n - 1) with (Z.ones n) by (rewrite Z.ones_equiv; lia).
  rewrite Z.land_ones by done.
  apply Z.mod_pos_bound. lia.
Qed.

Lemma shiftr_below (c k n : Z) :
  0 ≤ k → 0 ≤ n → 0 ≤ c < 2 ^ (n + k) → 0 ≤ Z.shiftr c k < 2 ^ n.
Proof.
  intros Hk Hn Hc. rewrite Z.shiftr_div_pow2 by done.
  rewrite Z.pow_add_r in Hc by done.
  split; [apply Z.div_pos; lia |].
  apply Z.div_lt_upper_bound; lia.
Qed.

Lemma continuation_byte (c shift : Z) :
  0 ≤ TextEncoder.continuation c shift < 256.
Proof.
  unfold TextEncoder.continuation.
  apply (lor_below 8); [lia | lia |].
  pose proof (land_below (Z.shiftr c shift) 6 0x3F). lia.
Qed.

(** Scalar values are below 0x110000. *)
Lemma scalar_values_range_upto (n : nat) (s : JSString) :
  (length s ≤ n)%nat →
  Forall (λ u, 0 ≤ u < 0x10000) s →
  Forall (λ c, 0 ≤ c < 0x110000) (TextEncoder.scalar_values s).
Proof.
  revert s. induction n as [| n IH]; intros [| u s] Hlen Hs.
  - constructor.
  - cbn [length] in Hlen. lia.
  - constructor.
  - apply Forall_cons_1 in Hs as [Hu Hs]. cbn [length] in Hlen.
    assert (Forall (λ c, 0 ≤ c < 0x110000) (TextEncoder.scalar_values s))
      as Htail by (apply IH; [lia | done]).
    cbn [TextEncoder.scalar_values].
    destruct (TextEncoder.is_lead u).
    + destruct s as [| v rest]; [repeat constructor; lia |].
      destruct (TextEncoder.is_trail v); [| constructor; [lia | done]].
      apply Forall_cons_1 in Hs as [_ Hs]. cbn [length] in Hlen.
      constructor; [| apply IH; [lia | done]].
      pose proof (land_below u 10 0x3FF). pose proof (land_below v 10 0x3FF).
      assert (0 ≤ Z.lor (Z.shiftl (Z.land u 0x3FF) 10) (Z.land v 0x3FF)
              < 2 ^ 20); [| lia].
      apply lor_below; [lia | | lia].
      rewrite Z.shiftl_mul_pow2 by lia. lia.
    + destruct (TextEncoder.is_trail u); (constructor; [lia | done]).
Qed.

Lemma scalar_values_range (s : JSString) :
  Forall (λ u, 0 ≤ u < 0x10000) s →
  Forall (λ c, 0 ≤ c < 0x110000) (TextEncoder.scalar_values s).
Proof. by apply (scalar_values_range_upto (length s)). Qed.

Lemma utf8_bytes (c : Z) :
  0 ≤ c < 0x110000 → Forall (λ b, 0 ≤ b < 256) (TextEncoder.utf8 c).
Proof.
  intros Hc. unfold TextEncoder.utf8.
  destruct (Z.ltb_spec c 0x80); [| destruct (Z.ltb_spec c 0x800);
                                    [| destruct (Z.ltb_spec c 0x10000)]];
    repeat first [apply List.Forall_cons | apply List.Forall_nil];
    try apply continuation_byte; try lia;
    (apply (lor_below 8); [lia | lia |]).
  - pose proof (shiftr_below c 6 5). lia.
  - pose proof (shiftr_below c 12 4). lia.
  - pose proof (shiftr_below c 18 3). lia.
Qed.

(** The encoder produces bytes. *)
Lemma encode_bytes (s : JSString) :
  Forall (λ u, 0 ≤ u < 0x10000) s →
  Forall (λ b, 0 ≤ b < 256) (TextEncoder.encode s).
Proof.
  intros Hs%scalar_values_range. unfold TextEncoder.encode.
  induction Hs as [| c cs Hc _ IH]; [constructor |].
  cbn [flat_map]. apply Forall_app. split; [by apply utf8_bytes | done].
Qed.

(** ** The encoder is UTF-8 *)

(** Bits that do not overlap add up. *)
Lemma lor_tag (tag h k y : Z) :
  tag = h * 2 ^ k → 0 ≤ k → 0 ≤ y < 2 ^ k → Z.lor tag y = tag + y.
Proof.
  intros -> Hk Hy.
  assert (Z.land (h * 2 ^ k) y = 0) as Hland.
  { apply Z.bits_inj'. intros n Hn.
    rewrite Z.land_spec, Z.bits_0.
    destruct (Z.lt_ge_cases n k) as [Hlt | Hge].
    - by rewrite Z.mul_pow2_bits_low.
    - rewrite andb_false_iff. right.
      destruct (Z.eq_dec y 0) as [-> | Hy0]; [apply Z.bits_0 |].
      apply Z.bits_above_log2; [lia |].
      assert (Z.log2 y < k) by (apply Z.log2_lt_pow2; lia). lia. }
  by rewrite Z.add_nocarry_lxor, Z.lxor_lor.
Qed.

Lemma continuation_arith (c shift : Z) :
  0 ≤ shift →
  TextEncoder.continuation c shift = 0x80 + (c / 2 ^ shift) mod 64.
Proof.
  intros Hshift. unfold TextEncoder.continuation.
  rewrite Z.shiftr_div_pow2 by done.
  change 0x3F with (Z.ones 6). rewrite Z.land_ones by lia.
  apply (lor_tag _ 2 6); [reflexivity | lia |].
  apply Z.mod_pos_bound. lia.
Qed.

(** The encoder's bytes for one code point, in plain arithmetic. *)
Lemma utf8_arith (c : Z) :
  0 ≤ c < 0x110000 →
  TextEncoder.utf8 c
  = if c <? 0x80 then [c]
    else if c <? 0x800 then [0xC0 + c / 64; 0x80 + c mod 64]
    else if c <? 0x10000 then
      [0xE0 + c / 4096; 0x80 + (c / 64) mod 64; 0x80 + c mod 64]
    else
      [0xF0 + c / 262144; 0x80 + (c / 4096) mod 64;
       0x80 + (c / 64) mod 64; 0x80 + c mod 64].
Proof.
  intros Hc. unfold TextEncoder.utf8.
  rewrite !continuation_arith by lia.
  rewrite !Z.shiftr_div_pow2 by lia.
  change (2 ^ 0) with 1. change (2 ^ 6) with 64.
  change (2 ^ 12) with 4096. change (2 ^ 18) with 262144.
  rewrite Z.div_1_r.
  destruct (Z.ltb_spec c 0x80); [done |].
  destruct (Z.ltb_spec c 0x800).
  { f_equal. apply (lor_tag _ 6 5); [reflexivity | lia |].
    change (2 ^ 5) with 32. Z.div_mod_to_equations. lia. }
  destruct (Z.ltb_spec c 0x10000).
  { f_equal. apply (lor_tag _ 14 4); [reflexivity | lia |].
    change (2 ^ 4) with 16. Z.div_mod_to_equations. lia. }
  f_equal. apply (lor_tag _ 30 3); [reflexivity | lia |].
  change (2 ^ 3) with 8. Z.div_mod_to_equations. lia.
Qed.

Ltac zdiv := Z.div_mod_to_equations; lia.

(** Settle the comparisons of the goal whose outcome arithmetic decides. *)
Ltac settle_tests :=
  repeat match goal with
    | |- context [(?a <=? ?b)] =>
        first [ rewrite (proj2 (Z.leb_le a b)) by zdiv
              | rewrite (proj2 (Z.leb_gt a b)) by zdiv ]
    | |- context [(?a <? ?b)] =>
        first [ rewrite (proj2 (Z.ltb_lt a b)) by zdiv
              | rewrite (proj2 (Z.ltb_ge a b)) by zdiv ]
    end.

(** One step of the decoder. *)
Lemma decode_cons (b0 : Z) (r : list Z) :
  Utf8.decode (b0 :: r)
  = if (0 <=? b0) && (b0 <? 0x80) then cons b0 <$> Utf8.decode r
    else
      match r with
      | [] => None
      | b1 :: r1 =>
          if (0xC0 <=? b0) && (b0 <? 0xE0) then
            let c := (b0 - 0xC0) * 64 + (b1 - 0x80) in
            if Utf8.continuation b1 && (0x80 <=? c)
            then cons c <$> Utf8.decode r1
            else None
          else
            match r1 with
            | [] => None
            | b2 :: r2 =>
                if (0xE0 <=? b0) && (b0 <? 0xF0) then
                  let c := (b0 - 0xE0) * 4096 + (b1 - 0x80) * 64
                           + (b2 - 0x80) in
                  if Utf8.continuation b1 && Utf8.continuation b2
                     && (0x800 <=? c) && negb (Utf8.surrogate c)
                  then cons c <$> Utf8.decode r2
                  else None
                else
                  match r2 with
                  | [] => None
                  | b3 :: r3 =>
                      if (0xF0 <=? b0) && (b0 <? 0xF8) then
                        let c := (b0 - 0xF0) * 262144 + (b1 - 0x80) * 4096
                                 + (b2 - 0x80) * 64 + (b3 - 0x80) in
                        if Utf8.continuation b1 && Utf8.continuation b2
                           && Utf8.continuation b3
                           && (0x10000 <=? c) && (c <? 0x110000)
                        then cons c <$> Utf8.decode r3
                        else None
                      else None
                  end
            end
      end.
Proof. reflexivity. Qed.

(** Decoding reads back the code point the encoder wrote. *)
Lemma decode_utf8 (c : Z) (rest : list Z) :
  Utf8.scalar c = true →
  Utf8.decode (TextEncoder.utf8 c ++ rest) = cons c <$> Utf8.decode rest.
Proof.
  unfold Utf8.scalar, Utf8.surrogate.
  intros [[Hlo%Z.leb_le Hhi%Z.ltb_lt]%andb_true_iff Hs%negb_true_iff]
    %andb_true_iff.
  apply andb_false_iff in Hs.
  rewrite Z.leb_gt, Z.ltb_ge in Hs.
  destruct Hs as [Hs | Hs];
    (rewrite utf8_arith by lia;
     destruct (Z.ltb_spec c 0x80); [| destruct (Z.ltb_spec c 0x800);
                                      [| destruct (Z.ltb_spec c 0x10000)]]);
    cbn [app]; rewrite decode_cons;
    cbv zeta; unfold Utf8.continuation, Utf8.surrogate;
    settle_tests; cbn [andb negb]; do 2 f_equal; zdiv.
Qed.

Lemma decode_code_points (cs : list Z) :
  Forall (λ c, Utf8.scalar c = true) cs →
  Utf8.decode (flat_map TextEncoder.utf8 cs) = Some cs.
Proof.
  induction 1 as [| c cs Hc _ IH]; [reflexivity |].
  cbn [flat_map]. by rewrite decode_utf8, IH.
Qed.

(** Induction on a string read one or two code units at a time. *)
Lemma code_units_ind (P : JSString → Prop) :
  P [] →
  (∀ u, P [u]) →
  (∀ u v rest, P (v :: rest) → P rest → P (u :: v :: rest)) →
  ∀ s, P s.
Proof.
  intros Hnil Hone Hstep s.
  assert (P s ∧ ∀ u, P (u :: s)) as [Hs _]; [| done].
  induction s as [| v rest [IHrest IHcons]]; [by split |].
  split; [apply IHcons |].
  intros u. apply Hstep; [apply IHcons | done].
Qed.

(** The scalar values the encoder computes with bit operations are the
    code points of the string. *)
Lemma scalar_values_code_points (s : JSString) :
  TextEncoder.scalar_values s = Utf8.code_points s.
Proof.
  induction s as [| u | u v rest IHtail IHrest] using code_units_ind.
  - reflexivity.
  - cbn. unfold TextEncoder.is_lead, TextEncoder.is_trail, Utf8.surrogate.
    destruct (Z.leb_spec 0xD800 u), (Z.leb_spec u 0xDBFF),
      (Z.leb_spec 0xDC00 u), (Z.leb_spec u 0xDFFF), (Z.ltb_spec u 0xE000);
      try lia; reflexivity.
  - change (TextEncoder.scalar_values (u :: v :: rest)) with
      (if TextEncoder.is_lead u then
         if TextEncoder.is_trail v
         then (0x10000 + Z.lor (Z.shiftl (Z.land u 0x3FF) 10)
                               (Z.land v 0x3FF))
              :: TextEncoder.scalar_values rest
         else 0xFFFD :: TextEncoder.scalar_values (v :: rest)
       else if TextEncoder.is_trail u
            then 0xFFFD :: TextEncoder.scalar_values (v :: rest)
            else u :: TextEncoder.scalar_values (v :: rest)).
    change (Utf8.code_points (u :: v :: rest)) with
      (if Utf8.high_surrogate u && Utf8.low_surrogate v
       then (0x10000 + (u - 0xD800) * 0x400 + (v - 0xDC00))
            :: Utf8.code_points rest
       else (if Utf8.surrogate u then 0xFFFD else u)
            :: Utf8.code_points (v :: rest)).
    rewrite IHtail, IHrest.
    unfold TextEncoder.is_lead, TextEncoder.is_trail, Utf8.surrogate,
      Utf8.high_surrogate, Utf8.low_surrogate.
    destruct (Z.leb_spec 0xD800 u), (Z.leb_spec u 0xDBFF),
      (Z.ltb_spec u 0xDC00), (Z.leb_spec 0xDC00 u), (Z.leb_spec u 0xDFFF),
      (Z.ltb_spec u 0xE000);
      try lia; cbn [andb]; try reflexivity;
      destruct (Z.leb_spec 0xDC00 v), (Z.leb_spec v 0xDFFF),
        (Z.ltb_spec v 0xE000);
      try lia; cbn [andb]; try reflexivity.
    f_equal.
    change 0x3FF with (Z.ones 10). rewrite !Z.land_ones by lia.
    rewrite Z.shiftl_mul_pow2 by lia.
    rewrite (lor_tag _ (u mod 2 ^ 10) 10); [| reflexivity | lia |].
    + change (2 ^ 10) with 1024. zdiv.
    + apply Z.mod_pos_bound. lia.
Qed.

(** The code points of a string of 16-bit code units are scalar values. *)
Lemma code_points_scalar (s : JSString) :
  Forall (λ u, 0 ≤ u < 0x10000) s →
  Forall (λ c, Utf8.scalar c = true) (Utf8.code_points s).
Proof.
  assert (∀ u, 0 ≤ u < 0x10000 →
               Utf8.scalar (if Utf8.surrogate u then 0xFFFD else u) = true)
    as Hone.
  { intros u Hu. unfold Utf8.scalar, Utf8.surrogate.
    destruct (Z.leb_spec 0xD800 u), (Z.ltb_spec u 0xE000); cbn [andb];
      try lia; settle_tests; reflexivity. }
  induction s as [| u | u v rest IHtail IHrest] using code_units_ind;
    intros Hs.
  - constructor.
  - apply Forall_cons_1 in Hs as [Hu _]. cbn. constructor; auto.
  - apply Forall_cons_1 in Hs as [Hu Hs]. pose proof (IHtail Hs).
    apply Forall_cons_1 in Hs as [Hv Hs]. pose proof (IHrest Hs).
    change (Utf8.code_points (u :: v :: rest)) with
      (if Utf8.high_surrogate u && Utf8.low_surrogate v
       then (0x10000 + (u - 0xD800) * 0x400 + (v - 0xDC00))
            :: Utf8.code_points rest
       else (if Utf8.surrogate u then 0xFFFD else u)
            :: Utf8.code_points (v :: rest)).
    destruct (Utf8.high_surrogate u && Utf8.low_surrogate v) eqn:Hpair;
      [| constructor; auto].
    constructor; [| done].
    apply andb_true_iff in Hpair as [Hhigh Hlow].
    unfold Utf8.high_surrogate, Utf8.low_surrogate in Hhigh, Hlow.
    apply andb_true_iff in Hhigh as [?%Z.leb_le ?%Z.ltb_lt].
    apply andb_true_iff in Hlow as [?%Z.leb_le ?%Z.ltb_lt].
    unfold Utf8.scalar, Utf8.surrogate. settle_tests. reflexivity.
Qed.

(** The bytes the encoder produces decode, as UTF-8, to the code points
    of the string. *)
Lemma decode_encode (s : JSString) :
  Forall (λ u, 0 ≤ u < 0x10000) s →
  Utf8.decode (TextEncoder.encode s) = Some (Utf8.code_points s).
Proof.
  intros Hs. unfold TextEncoder.encode.
  rewrite scalar_values_code_points.
  by apply decode_code_points, code_points_scalar.
Qed.

(** C8. In each of the four operations, for a key that passes validation,
    a string payload reaches the engine as the encoder's output, and that
    output is the UTF-8 encoding of the string: a sequence of bytes that
    the UTF-8 decoder reads back as the string's code points; a binary
    payload reaches the engine as it is. *)
Theorem payload_normalized op key signature options :
  Spec.valid_for op key = true →
  (∀ s, handed_payload (dispatch op (Text s) key signature options)
        = Some (TextEncoder.encode s))
  ∧ (∀ b, handed_payload (dispatch op (Binary b) key signature options)
          = Some b)
  ∧ (∀ s,
       Forall (λ u, 0 ≤ u < 0x10000) s →
       ∃ bytes,
         handed_payload (dispatch op (Text s) key signature options)
         = Some bytes
         ∧ Forall (λ b, 0 ≤ b < 256) bytes
         ∧ Utf8.decode bytes = Some (Utf8.code_points s)).
Proof.
  intros Hvalid.
  assert (∀ data,
            handed_payload (dispatch op data key signature options)
            = Some (Spec.normalize data)) as Hhanded.
  { intros data. rewrite (valid_dispatch _ _ _ _ _ Hvalid). by destruct op. }
  split; [| split].
  - intros s. apply Hhanded.
  - intros b. apply Hhanded.
  - intros s Hs. exists (TextEncoder.encode s).
    split; [apply Hhanded |].
    split; [by apply encode_bytes | by apply decode_encode].
Qed.

Lemma payload_normalized_witness :
  Spec.valid_for Sign rsa_pss_private_key = true
  ∧ handed_payload
      (dispatch Sign (Text beyond_ascii) rsa_pss_private_key [] None)
    = Some [0xC3; 0xA9; 0xE2; 0x82; 0xAC; 0xF0; 0x9F; 0x98; 0x80]
  ∧ (∃ bytes,
       handed_payload
         (dispatch Sign (Text beyond_ascii) rsa_pss_private_key [] None)
       = Some bytes
       ∧ Forall (λ b, 0 ≤ b < 256) bytes
       ∧ Utf8.decode bytes = Some [0xE9; 0x20AC; 0x1F600])
  ∧ handed_payload
      (dispatch Sign (Binary [0xE9; 0x20AC]) rsa_pss_private_key [] None)
    = Some [0xE9; 0x20AC].
Proof.
  split; [reflexivity |].
  destruct (payload_normalized Sign rsa_pss_private_key [] None eq_refl)
    as (Htext & Hbinary & Hutf8).
  split; [exact (Htext beyond_ascii) |].
  split; [| exact (Hbinary [0xE9; 0x20AC])].
  apply (Hutf8 beyond_ascii).
  apply (bool_decide_unpack _). reflexivity.
Defined.

Local Close Scope Z_scope.

(** * Further properties *)

(** ** Profiles *)


(** X2. Every profile a builder returns asks for at least one usage and
    for no usage twice, and among such profiles the algorithm name settles
    the usage list. *)
Theorem built_profile_invariants :
  (∀ b, (build b).(Generate.keyUsages) ≠ []
        ∧ NoDup (build b).(Generate.keyUsages))
  ∧ (∀ b b',
       Generate.name (build b).(Generate.algorithm)
       = Generate.name (build b').(Generate.algorithm) →
       (build b).(Generate.keyUsages) = (build b').(Generate.keyUsages)).
Proof.
  split.
  - intros b. split.
    + destruct b as [[] ? | [] ? ? | ? ? | [] ? | |]; discriminate.
    + destruct b as [[] ? | [] ? ? | ? ? | [] ? | |];
        apply (bool_decide_unpack _); reflexivity.
  - intros b b'.
    destruct b as [[] ? | [] ? ? | ? ? | [] ? | |],
             b' as [[] ? | [] ? ? | ? ? | [] ? | |];
      cbn; intros Hname; try reflexivity; discriminate Hname.
Qed.

(** ** Profiles and the dispatcher *)





(** X4. The two allow-lists share no name: a key that passes validation
    for an operation of one family (encrypt, decrypt) makes every
    operation of the other family (sign, verify) throw the
    unsupported-algorithm error, and the other way round. *)
Theorem families_exclude_each_other op op' data key signature options :
  Spec.allow_list op ≠ Spec.allow_list op' →
  Spec.valid_for op key = true →
  dispatch op' data key signature options = Thrown Spec.UnsupportedAlgorithm.
Proof.
  intros Hfamily [Hname _]%andb_true_iff. by_protocol.
  apply includes_true in Hname.
  destruct (includes (Spec.allow_list op') _) eqn:Hname'; [| done].
  exfalso. apply includes_true in Hname'.
  revert Hname Hname'.
  generalize (name (CryptoKey.algorithm key)). intros n Hname Hname'.
  destruct op, op'; try (by apply Hfamily);
    cbn [Spec.allow_list] in Hname, Hname';
    repeat (apply elem_of_cons in Hname as [-> | Hname];
            [revert Hname'; apply (bool_decide_unpack (¬ _)); reflexivity |]);
    by apply elem_of_nil in Hname.
Qed.

Lemma families_exclude_each_other_witness :
  dispatch Verify (Text hello_world) (aes_gcm_key [Usage.encrypt])
    [] None
  = Thrown Spec.UnsupportedAlgorithm.
Proof.
  apply (families_exclude_each_other Encrypt Verify (Text hello_world)
           (aes_gcm_key [Usage.encrypt]) [] None);
    [discriminate | reflexivity].
Defined.

(** X5. Whether an operation throws, and which error, depends on the key
    alone: no payload, signature or options value turns a rejection into
    a call of the engine, or one error into the other. *)
Theorem validation_depends_on_key_only
    op key data data' signature signature' options options' e :
  dispatch op data key signature options = Thrown e
  ↔ dispatch op data' key signature' options' = Thrown e.
Proof.
  rewrite !dispatch_protocol. unfold Spec.protocol.
  destruct (includes (Spec.allow_list op) _); [| done].
  by destruct (includes (CryptoKey.usages key) _).
Qed.

(** ** The merged descriptor *)

Lemma lookup_spread (a : Obj) options (k : string) :
  spread a options !! k
  = match options ≫= (λ o : Obj, o !! k) with
    | Some v => Some v
    | None => a !! k
    end.
Proof.
  unfold spread. destruct options as [o |]; cbn.
  - rewrite lookup_union. by destruct (o !! k), (a !! k).
  - by rewrite (left_id_L ∅ (∪)).
Qed.

Lemma lookup_own_properties (a : KeyAlgorithm) (k : string) :
  own_properties a !! k
  = if decide (k = "name") then Some (VString a.(name))
    else a.(parameters) !! k.
Proof.
  unfold own_properties. case_decide as Hk.
  - subst k. apply lookup_insert_eq.
  - by apply lookup_insert_ne.
Qed.

(** X6. The descriptor a valid operation hands to the engine has, under
    each property name, the value of the options if the options have that
    property, else the key's algorithm name under [name] and the key's own
    parameter under any other name; nothing is dropped and nothing else is
    added. *)
Theorem merged_descriptor op data key signature options :
  Spec.valid_for op key = true →
  ∃ d,
    handed_algorithm (dispatch op data key signature options) = Some d
    ∧ ∀ k : string,
        d !! k
        = match options ≫= (λ o : Obj, o !! k) with
          | Some v => Some v
          | None =>
              if decide (k = "name")
              then Some (VString key.(CryptoKey.algorithm).(name))
              else key.(CryptoKey.algorithm).(parameters) !! k
          end.
Proof.
  intros Hvalid. rewrite (valid_dispatch _ _ _ _ _ Hvalid).
  eexists. split; [by destruct op |].
  intros k. by rewrite lookup_spread, lookup_own_properties.
Qed.

Lemma merged_descriptor_witness :
  ∃ d,
    handed_algorithm
      (dispatch Sign (Text hello_world) rsa_pss_private_key []
         (Some {["saltLength" := VNumber 32]}))
    = Some d
    ∧ ∀ k : string,
        d !! k
        = match Some {["saltLength" := VNumber 32]}
                ≫= (λ o : Obj, o !! k) with
          | Some v => Some v
          | None =>
              if decide (k = "name")
              then Some
                     (VString
                        rsa_pss_private_key.(CryptoKey.algorithm).(name))
              else rsa_pss_private_key.(CryptoKey.algorithm).(parameters)
                   !! k
          end.
Proof.
  apply (merged_descriptor Sign (Text hello_world) rsa_pss_private_key []
           (Some {["saltLength" := VNumber 32]})).
  reflexivity.
Defined.

(** X7. The options are merged after the key's descriptor and with no
    guard: at run time, an options object that carries a [name] property
    (its declared type has none) passes a valid key's validation, which
    reads the key's own name, and the engine receives the descriptor with
    the name of the options. *)
Theorem options_name_reaches_engine op data key signature (o : Obj) v :
  Spec.valid_for op key = true →
  o !! "name" = Some v →
  ∃ d,
    dispatch op data key signature (Some o)
    = Delegated
        (Spec.engine_method op d key signature (Spec.normalize data))
    ∧ descriptor_name d = Some v.
Proof.
  intros Hvalid Ho. rewrite (valid_dispatch _ _ _ _ _ Hvalid).
  eexists. split; [reflexivity |].
  by apply spread_takes_name_of_options.
Qed.

Lemma options_name_reaches_engine_witness :
  ∃ d,
    dispatch Encrypt (Text hello_world) (aes_gcm_key [Usage.encrypt]) []
      (Some {["name" := VString "AES-CBC"]})
    = Delegated
        (Spec.engine_method Encrypt d (aes_gcm_key [Usage.encrypt]) []
           (Spec.normalize (Text hello_world)))
    ∧ descriptor_name d = Some (VString "AES-CBC").
Proof.
  apply (options_name_reaches_engine Encrypt (Text hello_world)
           (aes_gcm_key [Usage.encrypt]) []
           {["name" := VString "AES-CBC"]} (VString "AES-CBC"));
    reflexivity.
Defined.

(** ** The role filter of [importKey] *)

Lemma filter_sublist {A} (f : A → bool) (l : list A) :
  sublist (List.filter f l) l.
Proof.
  induction l as [| x l IH]; [constructor |].
  cbn [List.filter]. destruct (f x); by constructor.
Qed.

Lemma filter_twice {A} (f : A → bool) (l : list A) :
  List.filter f (List.filter f l) = List.filter f l.
Proof.
  induction l as [| x l IH]; [reflexivity |].
  cbn [List.filter]. destruct (f x) eqn:Hx; [| done].
  cbn [List.filter]. by rewrite Hx, IH.
Qed.

Lemma elem_of_filter_keeps type (l : list KeyUsage) u :
  u ∈ List.filter (keeps type) l ↔ u ∈ l ∧ keeps type u = true.
Proof. by rewrite !list_elem_of_In, filter_In. Qed.

Lemma count_occ_filter_keeps type (l : list KeyUsage) u :
  count_occ Usage.usage_eq_dec (List.filter (keeps type) l) u
  = if keeps type u then count_occ Usage.usage_eq_dec l u else 0%nat.
Proof.
  induction l as [| x l IH]; [by destruct (keeps type u) |].
  cbn [List.filter count_occ].
  destruct (Usage.usage_eq_dec x u) as [-> | Hne].
  - destruct (keeps type u) eqn:Hu; [| done].
    cbn [count_occ]. rewrite IH.
    by destruct (Usage.usage_eq_dec u u).
  - destruct (keeps type x); [| done].
    cbn [count_occ]. rewrite IH.
    by destruct (Usage.usage_eq_dec x u).
Qed.

(** X8. The usage list [importKey] hands to the engine is a subsequence of
    the requested list: nothing is added, the usages kept stay in their
    order, each as often as it was requested, and the usages dropped are
    gone altogether.  Importing again with the handed list as the request,
    under the same role, hands the same list. *)
Theorem importKey_usages_subsequence format type key options extractable :
  ∃ us,
    handed_usages (importKey format type key options extractable) = Some us
    ∧ sublist us options.(Generate.keyUsages)
    ∧ (∀ u,
         count_occ Usage.usage_eq_dec us u
         = if keeps type u
           then count_occ Usage.usage_eq_dec options.(Generate.keyUsages) u
           else 0%nat)
    ∧ ∀ format' key' extractable',
        handed_usages
          (importKey format' type key'
             (Generate.mkKeyGenParams options.(Generate.algorithm)
                options.(Generate.extractable) us)
             extractable')
        = Some us.
Proof.
  rewrite importKey_call. eexists. split; [reflexivity |].
  split; [apply filter_sublist |].
  split; [intros u; apply count_occ_filter_keeps |].
  intros format' key' extractable'. rewrite importKey_call.
  cbn [handed_usages Generate.keyUsages]. by rewrite filter_twice.
Qed.

(** X9. No usage is dropped under both roles: each requested usage is
    handed to the engine by the public import or by the private import of
    the same profile, and by both exactly when it is deriveKey or
    deriveBits. *)
Theorem roles_cover_usages format key options extractable :
  ∃ pub priv,
    handed_usages (importKey format KeyType.public key options extractable)
    = Some pub
    ∧ handed_usages
        (importKey format KeyType.private key options extractable)
      = Some priv
    ∧ ∀ u,
        (u ∈ options.(Generate.keyUsages) ↔ u ∈ pub ∨ u ∈ priv)
        ∧ (u ∈ pub ∧ u ∈ priv
           ↔ u ∈ options.(Generate.keyUsages) ∧ u ∈ Spec.shared).
Proof.
  rewrite !importKey_call. do 2 eexists.
  split; [reflexivity |]. split; [reflexivity |].
  intros u. rewrite !elem_of_filter_keeps.
  assert (u ∈ Spec.shared
          ↔ keeps KeyType.public u = true ∧ keeps KeyType.private u = true)
    as ->.
  { destruct u; cbn; split; try (by intros [? ?]);
      try (intros _; apply (bool_decide_unpack _); reflexivity);
      intros H; exfalso; revert H;
      apply (bool_decide_unpack (¬ _)); reflexivity. }
  destruct u; cbn; intuition congruence.
Qed.

(** X10. A key whose usages are among those a public import handed to the
    engine makes [sign] and [decrypt] throw, and one from a private import
    makes [verify] and [encrypt] throw, for every profile imported. *)
Theorem imported_role_limits_operations
    format type material options extractable us key op :
  handed_usages (importKey format type material options extractable)
  = Some us →
  (∀ u, u ∈ key.(CryptoKey.usages) → u ∈ us) →
  keeps type (Spec.required_usage op) = false →
  Spec.valid_for op key = false
  ∧ ∀ data signature opts,
      ∃ e, dispatch op data key signature opts = Thrown e.
Proof.
  rewrite importKey_call. intros [= <-] Hkey Hrole.
  assert (Spec.valid_for op key = false) as Hinvalid.
  { apply valid_for_false. right. intros Hu%Hkey.
    apply elem_of_filter_keeps in Hu as [_ Hu]. congruence. }
  split; [done |].
  intros data signature opts.
  rewrite (invalid_dispatch _ _ _ _ _ Hinvalid). by eexists.
Qed.

Lemma imported_role_limits_operations_witness :
  Spec.valid_for Sign
    (CryptoKey.mk (mkKeyAlgorithm "RSA-PSS" ∅) true KeyType.public
       [Usage.verify] 3)
  = false
  ∧ ∀ data signature opts,
      ∃ e,
        dispatch Sign data
          (CryptoKey.mk (mkKeyAlgorithm "RSA-PSS" ∅) true KeyType.public
             [Usage.verify] 3)
          signature opts
        = Thrown e.
Proof.
  apply (imported_role_limits_operations KeyFormat.spki KeyType.public
           (KeyBytes []) (Generate.rsaKey Generate.Signing None None) None
           [Usage.verify]).
  - reflexivity.
  - by intros u.
  - reflexivity.
Defined.

(** ** Profiles through import *)



(** X12. Under each of the three roles, the import of a builder's profile
    hands the engine at least one usage: the role filter never empties
    the usage list of a profile the builders return. *)
Theorem imported_profile_keeps_a_usage b format type material extractable :
  ∃ u us,
    handed_usages (importKey format type material (build b) extractable)
    = Some (u :: us).
Proof.
  rewrite importKey_call.
  destruct b as [[] ? | [] ? ? | ? ? | [] ? | |], type;
    do 2 eexists; reflexivity.
Qed.

(** ** Extractability from creation to export *)

(** X13. [generateKey] and [importKey] hand the engine the override when
    one is given, [false] included, and the profile's flag otherwise.  So
    a key carrying the flag handed for a builder's profile is exported by
    [exportKey] unless the override was [false], in which case [exportKey]
    throws in every format. *)
Theorem extractable_from_creation_to_export :
  (∀ options override format type material,
     handed_extractable (Generate.generateKey options override)
     = Some (default options.(Generate.extractable) override)
     ∧ handed_extractable (importKey format type material options override)
       = Some (default options.(Generate.extractable) override))
  ∧ (∀ b override format type material format' key,
       handed_extractable (Generate.generateKey (build b) override)
       = Some key.(CryptoKey.extractable)
       ∨ handed_extractable
           (importKey format type material (build b) override)
         = Some key.(CryptoKey.extractable) →
       exportKey format' key
       = if default true override
         then Delegated (SubtleExportKey format' key)
         else Thrown Spec.NotExtractable).
Proof.
  split.
  - intros options override format type material.
    rewrite importKey_call. by destruct override.
  - intros b override format type material format' key.
    rewrite importKey_call.
    assert ((build b).(Generate.extractable) = true) as Hflag
      by (by destruct b as [[] ? | [] ? ? | ? ? | [] ? | |]).
    unfold Generate.generateKey. cbn [handed_extractable].
    unfold exportKey.
    destruct override as [[] |]; cbn [default];
      rewrite ?Hflag; intros [[= <-] | [= <-]]; cbn [negb];
      try reflexivity; by destruct format'.
Qed.

(** ** Text and binary payloads *)

(** X14. A string of ASCII characters, the empty string included, and the
    buffer of its character codes are the same payload: each operation
    throws the same error for both, or hands the engine the same call. *)
Theorem ascii_text_is_its_bytes op (s : JSString) key signature options :
  Forall (λ u, 0 ≤ u < 0x80)%Z s →
  dispatch op (Text s) key signature options
  = dispatch op (Binary s) key signature options.
Proof.
  intros Hs. rewrite !dispatch_protocol. unfold Spec.protocol, Spec.normalize.
  by rewrite encode_ascii.
Qed.

Lemma ascii_text_is_its_bytes_witness :
  dispatch Encrypt (Text hello_world) (aes_gcm_key [Usage.encrypt]) [] None
  = dispatch Encrypt (Binary hello_world) (aes_gcm_key [Usage.encrypt])
      [] None.
Proof.
  apply (ascii_text_is_its_bytes Encrypt hello_world
           (aes_gcm_key [Usage.encrypt]) [] None).
  apply (bool_decide_unpack _). reflexivity.
Defined.
